(** * NoThrow: Result, Option and the generator-based propagation engine

    A shallow embedding of [src/result.ts] and [src/option.ts], and the
    properties of the combinators, of the [gen] driver, of the aggregate
    combinators and of the retry helper. *)

From Stdlib Require Import List ZArith Lia String Floats.
From Equations Require Import Equations.
Import ListNotations.

Set Implicit Arguments.

(* ===================================================================== *)
(** * Runtime values *)
(* ===================================================================== *)

(** The values a TypeScript [unknown] ranges over, as far as the library
    looks at them: the two absence sentinels, the primitives, [Error] and
    [TypeError] objects (only their class and [message] are observed) and
    other objects by their own properties.  Numbers are IEEE 754 doubles. *)
Inductive JsValue : Type :=
| JsUndefined
| JsNull
| JsBoolean (b : bool)
| JsNumber (n : float)
| JsBigInt (n : Z)
| JsString (s : string)
| JsSymbol (description : string)
| JsError (message : string)
| JsTypeError (message : string)
| JsObject (properties : JsProperties)
with JsProperties : Type :=
| NoProperty
| Property (key : string) (value : JsValue) (rest : JsProperties).

(** A call either returns or throws; [throw x] may carry any value. *)
Inductive Completion (A : Type) : Type :=
| Returns (value : A)
| Throws (fault : JsValue).
Arguments Returns {A} value.
Arguments Throws {A} fault.

(* ===================================================================== *)
(** * result.ts: the [Ok] and [Err] classes *)
(* ===================================================================== *)

(** [type Result<T, E> = Ok<T, E> | Err<T, E>]; each class has one
    read-only field. *)
Inductive Result (T E : Type) : Type :=
| Ok (value : T)
| Err (error : E).
Arguments Ok {T E} value.
Arguments Err {T E} error.

Section ResultMethods.
Context {T E : Type}.

(** [JSON.stringify] followed by the string conversion of the template
    literal: a collaborator outside the library, taken by its interface.  On
    an error value it either gives a text (["undefined"] where
    [JSON.stringify] returns [undefined]) or throws, as it does on a BigInt
    and on a cyclic object; the fault then leaves the method in place of the
    [Error] under construction. *)
Variable JSON_stringify : E -> Completion string.

Definition isOk (r : Result T E) : bool :=
  match r with Ok _ => true | Err _ => false end.


Definition ok (r : Result T E) : bool :=
  match r with Ok _ => true | Err _ => false end.

Definition unwrap (r : Result T E) : Completion T :=
  match r with
  | Ok value => Returns value
  | Err error =>
      match JSON_stringify error with
      | Returns text => Throws (JsError ("Called unwrap on an Err value: " ++ text))
      | Throws fault => Throws fault
      end
  end.

Definition unwrapOr (r : Result T E) (defaultValue : T) : T :=
  match r with Ok value => value | Err _ => defaultValue end.

Definition unwrapOrElse (r : Result T E) (fn : E -> T) : T :=
  match r with Ok value => value | Err error => fn error end.

Definition expect (r : Result T E) (message : string) : Completion T :=
  match r with
  | Ok value => Returns value
  | Err error =>
      match JSON_stringify error with
      | Returns text => Throws (JsError (message ++ ": " ++ text))
      | Throws fault => Throws fault
      end
  end.

Definition expectErr (r : Result T E) (message : string) : Completion E :=
  match r with
  | Ok _ => Throws (JsError message)
  | Err error => Returns error
  end.

Definition map {U : Type} (r : Result T E) (fn : T -> U) : Result U E :=
  match r with
  | Ok value => Ok (fn value)
  | Err error => Err error
  end.

Definition mapErr {F : Type} (r : Result T E) (fn : E -> F) : Result T F :=
  match r with
  | Ok value => Ok value
  | Err error => Err (fn error)
  end.

(** The error type [E | F] of the source is a union; both summands are
    the same runtime values, so the embedding takes [F = E]. *)
Definition flatMap {U : Type} (r : Result T E) (fn : T -> Result U E)
  : Result U E :=
  match r with
  | Ok value => fn value
  | Err error => Err error
  end.

Definition and_ {U : Type} (r : Result T E) (other : Result U E)
  : Result U E :=
  match r with
  | Ok _ => other
  | Err error => Err error
  end.

Definition or_ (r other : Result T E) : Result T E :=
  match r with
  | Ok _ => r
  | Err _ => other
  end.

Definition match_ {U : Type} (r : Result T E)
  (pattern_ok : T -> U) (pattern_err : E -> U) : U :=
  match r with
  | Ok value => pattern_ok value
  | Err error => pattern_err error
  end.

End ResultMethods.

(** A promise once it has settled, which is all [await] observes. *)
Inductive Settled (T : Type) : Type :=
| Fulfilled (value : T)
| Rejected (reason : JsValue).
Arguments Fulfilled {T} value.
Arguments Rejected {T} reason.

(* ===================================================================== *)
(** * The generator protocol *)
(* ===================================================================== *)

Section GeneratorProtocol.
Variables Y R N : Type.

(** What [generator.next(x)] hands back: [{ done: false, value }] together
    with the suspended frame the next call resumes, or
    [{ done: true, value }], after which nothing is left to resume. *)
Inductive IteratorResult (F : Type) : Type :=
| Yielded (value : Y) (suspended : F)
| Done (value : R).

(** A generator object [Generator<Y, R, N>]: a frame suspended at the start
    of the body and the code run by [next] from a suspended frame.  A
    generator that never completes is a machine that keeps yielding.  (A
    body that throws is not described: the library neither throws into a
    generator nor catches what comes out of one.) *)
Record Generator : Type := {
  frame : Type;
  start : frame;
  next : frame -> N -> IteratorResult frame
}.

End GeneratorProtocol.
Arguments Yielded {Y R F} value suspended.
Arguments Done {Y R F} value.

Section ResultIterator.
Context {T E : Type}.

(** The frames of [Err]'s iterator body [return (yield this) as T]: before
    the [yield], and suspended at it. *)
Inductive ErrFrame : Type := ErrStart | ErrAtYield.

(** [*[Symbol.iterator]()] of both classes, of type
    [Generator<Err<T, E>, T, unknown>].  [Ok]'s body is [return this.value].
    [Err]'s body returns the value of the [yield] expression, that is the
    argument of the [next] call that resumes it; the [as T] cast is erased,
    so the values sent in are taken at type [T]. *)
Definition iterator (this : Result T E) : Generator (Result T E) T T :=
  match this with
  | Ok value =>
      {| frame := unit;
         start := tt;
         next := fun _ _ => Done value |}
  | Err _ =>
      {| frame := ErrFrame;
         start := ErrStart;
         next := fun f sent =>
                   match f with
                   | ErrStart => Yielded this ErrAtYield
                   | ErrAtYield => Done sent
                   end |}
  end.

End ResultIterator.

(** How a class instance looks as a plain value: its own enumerable
    fields, the constructor's parameter property before [_tag]. *)
Definition asValue (r : Result JsValue JsValue) : JsValue :=
  match r with
  | Ok value =>
      JsObject (Property "value" value (Property "_tag" (JsString "Ok") NoProperty))
  | Err error =>
      JsObject (Property "error" error (Property "_tag" (JsString "Err") NoProperty))
  end.



(* ===================================================================== *)
(** * result.ts: [ResultFactory] *)
(* ===================================================================== *)

Module ResultFactory.

Definition ok {T E : Type} (value : T) : Result T E := Ok value.

Definition err {T E : Type} (error : E) : Result T E := Err error.

(** The thrown value is cast to the error type unchecked, so the error
    type is that of thrown values. *)
Definition fromThrowable {T : Type} (fn : unit -> Completion T)
  : Result T JsValue :=
  match fn tt with
  | Returns value => Ok value
  | Throws error => Err error
  end.

(** [fromPromise], from the [await] on. *)
Definition fromPromise {T : Type} (promise : Settled T) : Result T JsValue :=
  match promise with
  | Fulfilled value => Ok value
  | Rejected error => Err error
  end.

Section Gen.
Context {T E Unknown Args : Type}.

(** The value of a missing argument: the first [generator.next()]. *)
Variable undefined : Unknown.

(** What one call of the wrapped function did: the result it returned, the
    yielded values it inspected and the arguments of its [next] calls, both
    in order.  The last two are ghost state. *)
Record GenRun : Type := {
  returned : Result T E;
  inspected : list (Result Unknown E);
  sent : list Unknown
}.

Variable generator : Generator (Result Unknown E) (Result T E) Unknown.

(** The [while (!next.done)] loop; [fuel] bounds the number of iterations
    (a generator may yield for ever). *)
Fixpoint gen_loop (fuel : nat)
  (nxt : IteratorResult (Result Unknown E) (Result T E) (frame generator))
  (seen : list (Result Unknown E)) (args_sent : list Unknown)
  : option GenRun :=
  match nxt with
  | Done value =>
      Some {| returned := value; inspected := seen; sent := args_sent |}
  | Yielded result suspended =>
      match result with
      | Err error =>
          Some {| returned := Err error;
                  inspected := seen ++ [result];
                  sent := args_sent |}
      | Ok value =>
          match fuel with
          | O => None
          | S fuel' =>
              gen_loop fuel' (next generator suspended value)
                       (seen ++ [result]) (args_sent ++ [value])
          end
      end
  end.

Definition gen_call (fuel : nat) : option GenRun :=
  gen_loop fuel (next generator (start generator) undefined) [] [undefined].

End Gen.

(** [gen(generatorFn)]: the function that builds the generator from its
    arguments and drives it. *)
Definition gen {T E Unknown Args : Type} (undefined : Unknown)
  (generatorFn : Args -> Generator (Result Unknown E) (Result T E) Unknown)
  (fuel : nat) (args : Args) : option (@GenRun T E Unknown) :=
  gen_call undefined (generatorFn args) fuel.

(** ** [tryPromise] *)

Inductive Backoff : Type := linear | exponential.

(** The [retry] option.  [times] counts attempts and is carried as an
    integer; [delayMs] is a number of the arithmetic [D] in which the delays
    are computed: doubles in the code. *)
Record Retry (D : Type) : Type := {
  times : Z;
  delayMs : D;
  backoff : option Backoff
}.

(** What the helper does to the outside: it calls the thunk and it awaits
    a timer. *)
Inductive Event (D : Type) : Type :=
| Invoke
| SetTimeout (delay : D).
Arguments Invoke {D}.
Arguments SetTimeout {D} delay.

(** [delayMs * Math.pow(2, attempt)] as the code computes it, in doubles:
    the power is exact up to [2 ^ 1023] and [Infinity] beyond, and the
    product rounds, overflows to [Infinity], and is [NaN] for zero times
    [Infinity]. *)
Definition double_product (delayMs : float) (attempt : Z) : float :=
  (delayMs * Z.ldexp 1 attempt)%float.

(** The same product in exact integer arithmetic. *)
Definition exact_product (delayMs : Z) (attempt : Z) : Z :=
  (delayMs * 2 ^ attempt)%Z.

Section TryPromise.
Context {T W D : Type}.

(** The arithmetic of [retry.delayMs * Math.pow(2, attempt)]:
    [double_product] in the code. *)
Variable product : D -> Z -> D.

(** [config.try]: a call settles one way or the other and may change the
    state [W] the thunk closes over.  [config.catch] and [config.retry] are
    optional; the mapper is a function that returns. *)
Variable tryFn : W -> Settled T * W.
Variable catchFn : option (JsValue -> JsValue).
Variable retry : option (Retry D).

Definition maxAttempts : Z :=
  match retry with
  | Some r => times r + 1
  | None => 1
  end.

Definition delay (r : Retry D) (attempt : Z) : D :=
  match backoff r with
  | Some exponential => product (delayMs r) attempt
  | _ => delayMs r
  end.

(** The [for] loop from the test of its condition on, followed by the
    statement after the loop.  [log] is ghost state. *)
Equations? tryPromise_loop (attempt : Z) (w : W) (log : list (Event D))
  : Result T JsValue * (W * list (Event D))
  by wf (Z.to_nat (maxAttempts - attempt)) lt :=
tryPromise_loop attempt w log with Z_lt_dec attempt maxAttempts => {
  | right _ => (Err (JsError "Unexpected retry error"), (w, log))
  | left _ with tryFn w => {
    | (Fulfilled value, w') => (Ok value, (w', log ++ [Invoke]))
    | (Rejected error, w') with Z.eqb attempt (maxAttempts - 1) => {
      | true =>
          let mappedError :=
            match catchFn with
            | Some f => f error
            | None => error
            end in
          (Err mappedError, (w', log ++ [Invoke]))
      | false =>
          tryPromise_loop (attempt + 1) w'
            (match retry with
             | Some r => log ++ [Invoke] ++ [SetTimeout (delay r attempt)]
             | None => log ++ [Invoke]
             end)
      }
    }
  }.
Proof. lia. Qed.

Definition tryPromise (w : W) : Result T JsValue * (W * list (Event D)) :=
  tryPromise_loop 0 w [].

End TryPromise.

(** ** [all] and [partition] *)

Section Aggregates.
Context {T E : Type}.

(** The [for...of] loop of [all]; [visited] collects, as ghost state, the
    elements the loop has taken from the array. *)
Fixpoint all_loop (results : list (Result T E)) (values : list T)
  (visited : list (Result T E)) : Result (list T) E * list (Result T E) :=
  match results with
  | [] => (Ok values, visited)
  | result :: rest =>
      match result with
      | Err error => (Err error, visited ++ [result])
      | Ok value => all_loop rest (values ++ [value]) (visited ++ [result])
      end
  end.

Definition all (results : list (Result T E)) : Result (list T) E :=
  fst (all_loop results [] []).

Definition all_visited (results : list (Result T E)) : list (Result T E) :=
  snd (all_loop results [] []).

(** The object [{ ok: okValues, err: errValues }]. *)
Record Partition : Type := {
  okValues : list T;
  errValues : list E
}.

Fixpoint partition_loop (results : list (Result T E)) (oks : list T)
  (errs : list E) (visited : list (Result T E))
  : Partition * list (Result T E) :=
  match results with
  | [] => ({| okValues := oks; errValues := errs |}, visited)
  | result :: rest =>
      match result with
      | Ok value => partition_loop rest (oks ++ [value]) errs (visited ++ [result])
      | Err error => partition_loop rest oks (errs ++ [error]) (visited ++ [result])
      end
  end.

Definition partition (results : list (Result T E)) : Partition :=
  fst (partition_loop results [] [] []).

Definition partition_visited (results : list (Result T E))
  : list (Result T E) :=
  snd (partition_loop results [] [] []).

End Aggregates.

End ResultFactory.

(* ===================================================================== *)
(** * option.ts *)
(* ===================================================================== *)

Module Option.

(** [type Option<T> = Some<T> | None]; [None.instance] is the only
    instance of its class. *)
Inductive Option (T : Type) : Type :=
| Some (value : T)
| None.
Arguments Some {T} value.
Arguments None {T}.

Section OptionMethods.
Context {T : Type}.

Definition isSome (o : Option T) : bool :=
  match o with Some _ => true | None => false end.

Definition isNone (o : Option T) : bool :=
  match o with Some _ => false | None => true end.

Definition unwrap (o : Option T) : Completion T :=
  match o with
  | Some value => Returns value
  | None => Throws (JsError "Called unwrap on a None value")
  end.

Definition unwrapOr (o : Option T) (defaultValue : T) : T :=
  match o with Some value => value | None => defaultValue end.

Definition unwrapOrElse (o : Option T) (fn : unit -> T) : T :=
  match o with Some value => value | None => fn tt end.

Definition expect (o : Option T) (message : string) : Completion T :=
  match o with
  | Some value => Returns value
  | None => Throws (JsError message)
  end.

Definition map {U : Type} (o : Option T) (fn : T -> U) : Option U :=
  match o with Some value => Some (fn value) | None => None end.

Definition flatMap {U : Type} (o : Option T) (fn : T -> Option U) : Option U :=
  match o with Some value => fn value | None => None end.

Definition filter (o : Option T) (predicate : T -> bool) : Option T :=
  match o with
  | Some value => if predicate value then o else None
  | None => None
  end.

Definition and_ {U : Type} (o : Option T) (other : Option U) : Option U :=
  match o with Some _ => other | None => None end.

Definition or_ (o other : Option T) : Option T :=
  match o with Some _ => o | None => other end.

Definition match_ {U : Type} (o : Option T)
  (pattern_some : T -> U) (pattern_none : unit -> U) : U :=
  match o with
  | Some value => pattern_some value
  | None => pattern_none tt
  end.

Definition okOr {E : Type} (o : Option T) (error : E) : Result T E :=
  match o with Some value => Ok value | None => Err error end.


End OptionMethods.

(** ** [OptionFactory] *)

Definition some {T : Type} (value : T) : Option T := Some value.

Definition none {T : Type} : Option T := None.

(** [x == null] (IsLooselyEqual against [null]) holds of [null] and of
    [undefined] and of no other value. *)
Definition looselyEqualsNull (x : JsValue) : bool :=
  match x with
  | JsUndefined | JsNull => true
  | _ => false
  end.

(** The argument has type [T | null | undefined]. *)
Definition fromNullable (value : JsValue) : Option JsValue :=
  if negb (looselyEqualsNull value) then Some value else None.

End Option.

(* ===================================================================== *)
(** * Vocabulary of the statements *)
(* ===================================================================== *)

Section Vocabulary.
Context {T E : Type}.

(** The payloads of the [Ok] elements, and the errors of the [Err]
    elements, each in the order of the list. *)
Definition successes (results : list (Result T E)) : list T :=
  flat_map (fun r => match r with Ok value => [value] | Err _ => [] end) results.

Definition failures (results : list (Result T E)) : list E :=
  flat_map (fun r => match r with Ok _ => [] | Err error => [error] end) results.

End Vocabulary.

Section Feeding.
Context {T E Unknown : Type}.
Variable generator : Generator (Result Unknown E) (Result T E) Unknown.

(** [Feeds i values i']: from the iterator result [i] on, the procedure
    yields one success after another with the payloads [values] when each
    [yield] is answered with the payload just yielded, and the answer to
    the last of them brings it to [i']. *)
Inductive Feeds
  : IteratorResult (Result Unknown E) (Result T E) (frame generator) ->
    list Unknown ->
    IteratorResult (Result Unknown E) (Result T E) (frame generator) -> Prop :=
| Feeds_here i : Feeds i [] i
| Feeds_resume value suspended values i :
    Feeds (next generator suspended value) values i ->
    Feeds (Yielded (Ok value) suspended) (value :: values) i.

End Feeding.

Section Attempts.
Context {T W : Type}.
Variable tryFn : W -> Settled T * W.

(** The state the thunk closes over after [k] calls, and how its call
    number [k] (from zero) settles. *)
Fixpoint world_after (k : nat) (w : W) : W :=
  match k with
  | O => w
  | S k' => world_after k' (snd (tryFn w))
  end.

Definition outcome (k : nat) (w : W) : Settled T :=
  fst (tryFn (world_after k w)).

Definition rejected (s : Settled T) : Prop :=
  exists reason, s = Rejected reason.

End Attempts.

Section Schedule.
Context {D : Type}.
Variable product : D -> Z -> D.

(** [k] failed attempts, numbered from [attemptIndex], each followed by its
    wait, and one more attempt: the wait is [d] for linear backoff and the
    product of [d] and 2 to the power [attemptIndex] for exponential
    backoff. *)
Fixpoint schedule_from (b : option ResultFactory.Backoff) (d : D)
  (attemptIndex : Z) (k : nat) : list (ResultFactory.Event D) :=
  match k with
  | O => [ResultFactory.Invoke]
  | S k' =>
      ResultFactory.Invoke
        :: ResultFactory.SetTimeout
             (match b with
              | Some ResultFactory.exponential => product d attemptIndex
              | _ => d
              end)
        :: schedule_from b d (attemptIndex + 1) k'
  end.

Definition schedule (b : option ResultFactory.Backoff) (d : D) (k : nat)
  : list (ResultFactory.Event D) :=
  schedule_from b d 0 k.

End Schedule.

(** The number of calls of the thunk in a log. *)
Definition invocations {D : Type} (log : list (ResultFactory.Event D)) : nat :=
  List.length
    (List.filter
       (fun ev => match ev with ResultFactory.Invoke => true | _ => false end)
       log).

(** ** Procedures of the test suite *)

(** A thunk that closes over a counter of its calls:
    [attempts++; if (attempts < k + 1) throw new Error("Not yet");
    return "success"], so its first [k] calls are rejected. *)
Definition fails_first (k : nat) (attempts : nat) : Settled JsValue * nat :=
  (if Nat.ltb attempts k then Rejected (JsError "Not yet")
   else Fulfilled (JsString "success"),
   S attempts).

(** [(x as number) + (y as number)] on two numbers. *)
Definition plus (x y : JsValue) : JsValue :=
  match x, y with
  | JsNumber a, JsNumber b => JsNumber (a + b)
  | _, _ => JsNumber nan
  end.

(** [function* () { yield ok(A); yield err(B); yield ok(C); return ok(C) }]:
    the frame is the number of yields passed. *)
Definition three_steps (A B C : JsValue) (_ : unit)
  : Generator (Result JsValue JsValue) (Result JsValue JsValue) JsValue :=
  {| frame := nat;
     start := 0;
     next := fun pc _ =>
               match pc with
               | 0 => Yielded (Ok A) 1
               | 1 => Yielded (Err B) 2
               | 2 => Yielded (Ok C) 3
               | _ => Done (Ok C)
               end |}.

Inductive SumFrame : Type :=
| SumStart
| SumAtFirst
| SumAtSecond (a : JsValue).

(** [function* () { const a = yield ok(10); const b = yield ok(20);
    return ok(a + b) }]. *)
Definition sum_of_two (_ : unit)
  : Generator (Result JsValue JsValue) (Result JsValue JsValue) JsValue :=
  {| frame := SumFrame;
     start := SumStart;
     next := fun f x =>
               match f with
               | SumStart => Yielded (Ok (JsNumber 10)) SumAtFirst
               | SumAtFirst => Yielded (Ok (JsNumber 20)) (SumAtSecond x)
               | SumAtSecond a => Done (Ok (plus a x))
               end |}.

(** [function* (x) { if (x < 0) return err("Negative not allowed"); ... }]
    on a negative argument: no [yield] is reached. *)
Definition early_return (_ : unit)
  : Generator (Result JsValue JsValue) (Result JsValue JsValue) JsValue :=
  {| frame := unit;
     start := tt;
     next := fun _ _ => Done (Err (JsString "Negative not allowed")) |}.

(** Generator functions written with [yield*], as the test suite writes
    them: a body either returns or yields and goes on with what it is sent;
    the generator object of a body starts before it and is suspended at the
    continuation of a [yield]. *)
Inductive Body (T E : Type) : Type :=
| Return (r : Result T E)
| Yield (y : Result JsValue E) (k : JsValue -> Body T E).
Arguments Return {T E} r.
Arguments Yield {T E} y k.

Inductive BodyFrame (T E : Type) : Type :=
| AtStart (b : Body T E)
| AtYield (k : JsValue -> Body T E).
Arguments AtStart {T E} b.
Arguments AtYield {T E} k.

Definition run_body {T E : Type} (b : Body T E)
  : IteratorResult (Result JsValue E) (Result T E) (BodyFrame T E) :=
  match b with
  | Return r => Done r
  | Yield y k => Yielded y (AtYield k)
  end.

Definition generator_of {T E : Type} (b : Body T E)
  : Generator (Result JsValue E) (Result T E) JsValue :=
  {| frame := BodyFrame T E;
     start := AtStart b;
     next := fun f x =>
               match f with
               | AtStart b => run_body b
               | AtYield k => run_body (k x)
               end |}.

(** [const x = yield* r; ...]: the delegation runs [r]'s iterator, passes
    on what it yields, and the expression has its completion value.  So an
    [Ok] goes on at once with its value, and an [Err] is yielded and the
    body goes on with what it is sent. *)
Definition yield_star {T E : Type} (r : Result JsValue E)
  (k : JsValue -> Body T E) : Body T E :=
  match r with
  | Ok value => k value
  | Err _ => Yield r k
  end.

(** [(x as number) / (y as number)] on two numbers. *)
Definition quotient (x y : JsValue) : JsValue :=
  match x, y with
  | JsNumber a, JsNumber b => JsNumber (a / b)
  | _, _ => JsNumber nan
  end.

(** [const divide = (a, b) => b === 0 ? err("Division by zero") : ok(a / b)]. *)
Definition divide (a b : JsValue) : Result JsValue JsValue :=
  match b with
  | JsNumber y =>
      if (y =? 0)%float then Err (JsString "Division by zero")
      else Ok (quotient a b)
  | _ => Ok (quotient a b)
  end.

(** [function* () { const a = yield* divide(10, 2);
    const b = yield* divide(20, d); const c = yield* divide(a + b, 2);
    return ok(c) }], with [d] 4 or 0 in the tests. *)
Definition calculate (d : JsValue) (_ : unit)
  : Generator (Result JsValue JsValue) (Result JsValue JsValue) JsValue :=
  generator_of
    (yield_star (divide (JsNumber 10) (JsNumber 2)) (fun a =>
     yield_star (divide (JsNumber 20) d) (fun b =>
     yield_star (divide (plus a b) (JsNumber 2)) (fun c =>
     Return (Ok c))))).

(** [function* () { const values = []; for (const r of results)
    values.push(yield* r); return ok(values) }], with [acc] the values
    pushed so far. *)
Fixpoint collect {E : Type} (results : list (Result JsValue E))
  (acc : list JsValue) : Body (list JsValue) E :=
  match results with
  | [] => Return (Ok acc)
  | r :: rest => yield_star r (fun v => collect rest (acc ++ [v]))
  end.

(** The time a log spends waiting on timers, for integer delays. *)
Definition total_wait (log : list (ResultFactory.Event Z)) : Z :=
  fold_right
    (fun ev acc =>
       match ev with
       | ResultFactory.Invoke => acc
       | ResultFactory.SetTimeout d => (d + acc)%Z
       end)
    0%Z log.

(* ===================================================================== *)
(** * Properties *)
(* ===================================================================== *)

Section FunctorLaws.
Context {T U V E : Type}.

Lemma map_Ok (v : T) (f : T -> U) : map (E:=E) (Ok v) f = Ok (f v).
Proof. reflexivity. Qed.

Lemma map_Err (e : E) (f : T -> U) : map (Err e) f = Err e.
Proof. reflexivity. Qed.

(** C9: [r.map(identity)] has the variant and the contents of [r], and on
    a [Success] mapping [f] then [g] is mapping their composition (the
    same equation holds on a [Failure], where both sides keep the
    error). *)
Theorem map_functor_laws :
  (forall r : Result T E, map r (fun x => x) = r) /\
  (forall (v : T) (f : T -> U) (g : U -> V),
      map (map (E:=E) (Ok v) f) g = map (Ok v) (fun x => g (f x))) /\
  (forall (r : Result T E) (f : T -> U) (g : U -> V),
      map (map r f) g = map r (fun x => g (f x))).
Proof.
  repeat split.
  - intros [v | e]; reflexivity.
  - intros [v | e] f g; reflexivity.
Qed.

End FunctorLaws.


Section AggregateProperties.
Context {T E : Type}.
Import ResultFactory.

Lemma all_loop_successes (values : list T) (rest : list (Result T E)) :
  forall acc visited,
    all_loop (List.map Ok values ++ rest) acc visited =
    all_loop rest (acc ++ values) (visited ++ List.map Ok values).
Proof.
  induction values as [| v values IH]; intros acc visited; simpl.
  - now rewrite !app_nil_r.
  - rewrite IH, <- !app_assoc. reflexivity.
Qed.

(** Every array is a run of successes, either to its end or up to a first
    failure. *)
Lemma first_failure_split (results : list (Result T E)) :
  (exists values, results = List.map Ok values) \/
  (exists values e rest, results = List.map Ok values ++ Err e :: rest).
Proof.
  induction results as [| [v | e] results IH].
  - left. now exists [].
  - destruct IH as [[values ->] | (values & e & rest & ->)].
    + left. now exists (v :: values).
    + right. now exists (v :: values), e, rest.
  - right. now exists [], e, results.
Qed.

(** C4: [all] returns the first failure of the array with its error, and has
    by then taken from the array the elements up to that failure and no
    other; an array of successes gives the success of their payloads in
    order; the empty array gives the success of the empty array.  (The
    fourth part says that the first two cover every array.) *)
Theorem all_first_failure_or_all_values :
  (forall (values : list T) (e : E) (rest : list (Result T E)),
      all (List.map Ok values ++ Err e :: rest) = Err e /\
      all_visited (List.map Ok values ++ Err e :: rest) =
        List.map Ok values ++ [Err e]) /\
  (forall values : list T, all (List.map (@Ok T E) values) = Ok values) /\
  all (@nil (Result T E)) = Ok [] /\
  (forall results : list (Result T E),
      (exists values, results = List.map Ok values) \/
      (exists values e rest, results = List.map Ok values ++ Err e :: rest)).
Proof.
  split; [| split; [| split]].
  - intros values e rest. unfold all, all_visited.
    rewrite all_loop_successes. simpl. auto.
  - intros values. unfold all.
    rewrite <- (app_nil_r (List.map Ok values)), all_loop_successes.
    reflexivity.
  - reflexivity.
  - apply first_failure_split.
Qed.

Lemma partition_loop_spec (results : list (Result T E)) :
  forall oks errs visited,
    partition_loop results oks errs visited =
    ({| okValues := oks ++ successes results;
        errValues := errs ++ failures results |},
     visited ++ results).
Proof.
  induction results as [| [v | e] results IH]; intros oks errs visited; simpl.
  - now rewrite !app_nil_r.
  - rewrite IH, <- !app_assoc. reflexivity.
  - rewrite IH, <- !app_assoc. reflexivity.
Qed.

Lemma successes_failures_length (results : list (Result T E)) :
  List.length (successes results) + List.length (failures results)
    = List.length results.
Proof.
  induction results as [| [v | e] results IH]; simpl; lia.
Qed.

(** C5: [partition] takes every element of the array, puts the payloads of
    the successes in one list and the errors of the failures in the other,
    each in the order of the array, and the two lengths add up to the
    length of the array. *)
Theorem partition_full_pass (results : list (Result T E)) :
  partition results =
    {| okValues := successes results; errValues := failures results |} /\
  partition_visited results = results /\
  List.length (okValues (partition results))
    + List.length (errValues (partition results))
    = List.length results.
Proof.
  unfold partition, partition_visited.
  rewrite partition_loop_spec. simpl.
  repeat split. apply successes_failures_length.
Qed.

End AggregateProperties.

Section ExtractionProperties.
Context {T E : Type}.
Variable JSON_stringify : E -> Completion string.


End ExtractionProperties.



(** C7: [fromNullable] gives [None] exactly on [null] and [undefined] and
    wraps every other value unchanged; so [0], the empty string and [false]
    are wrapped. *)
Theorem fromNullable_only_sentinels_absent :
  (forall value : JsValue,
      Option.fromNullable value = Option.None <->
      value = JsNull \/ value = JsUndefined) /\
  (forall value : JsValue,
      value <> JsNull -> value <> JsUndefined ->
      Option.fromNullable value = Option.Some value) /\
  Option.fromNullable (JsNumber 0%float) = Option.Some (JsNumber 0%float) /\
  Option.fromNullable (JsString "") = Option.Some (JsString "") /\
  Option.fromNullable (JsBoolean false) = Option.Some (JsBoolean false).
Proof.
  split; [| split; [| repeat split]].
  - intros value; split.
    + destruct value; simpl; intros H; try discriminate; auto.
    + intros [-> | ->]; reflexivity.
  - intros value Hnull Hundef. destruct value; try reflexivity; congruence.
Qed.

Lemma fromNullable_only_sentinels_absent_witness :
  Option.fromNullable (JsString "hello") = Option.Some (JsString "hello") /\
  Option.isNone (Option.fromNullable JsNull) = true /\
  Option.isNone (Option.fromNullable JsUndefined) = true.
Proof.
  split; [| split].
  - apply (proj1 (proj2 fromNullable_only_sentinels_absent)); discriminate.
  - reflexivity.
  - reflexivity.
Defined.

Section GenProperties.
Context {T E Unknown : Type}.
Variable undefined : Unknown.
Variable G : Generator (Result Unknown E) (Result T E) Unknown.
Import ResultFactory.

Lemma gen_loop_Done fuel r seen args :
  gen_loop G fuel (Done r) seen args =
  Some {| returned := r; inspected := seen; sent := args |}.
Proof. destruct fuel; reflexivity. Qed.

Lemma gen_loop_Err fuel e suspended seen args :
  gen_loop G fuel (Yielded (Err e) suspended) seen args =
  Some {| returned := Err e; inspected := seen ++ [Err e]; sent := args |}.
Proof. destruct fuel; reflexivity. Qed.

(** Along a run of successes the loop consumes one unit of fuel a yield and
    extends both logs. *)
Lemma gen_loop_feeds i values i' :
  Feeds G i values i' ->
  forall fuel seen args,
    List.length values <= fuel ->
    gen_loop G fuel i seen args =
    gen_loop G (fuel - List.length values) i'
             (seen ++ List.map Ok values) (args ++ values).
Proof.
  induction 1 as [i | value suspended values i Hfeeds IH];
    intros fuel seen args Hfuel; simpl in *.
  - now rewrite Nat.sub_0_r, !app_nil_r.
  - destruct fuel as [| fuel]; [lia |]. simpl.
    rewrite IH by lia. now rewrite <- !app_assoc.
Qed.

(** More fuel never changes a result. *)
Lemma gen_loop_fuel_mono fuel :
  forall i seen args run,
    gen_loop G fuel i seen args = Some run ->
    forall fuel', fuel <= fuel' -> gen_loop G fuel' i seen args = Some run.
Proof.
  induction fuel as [| fuel IH]; intros i seen args run Hrun fuel' Hle;
    destruct i as [[value | error] suspended | r]; simpl in *;
    try discriminate; try (destruct fuel'; assumption).
  destruct fuel' as [| fuel']; [lia |]. simpl. apply IH; [assumption | lia].
Qed.

(** Whenever the loop returns, the procedure has yielded a run of
    successes and then either completed or yielded a failure. *)
Lemma gen_loop_sound fuel :
  forall i seen args run,
    gen_loop G fuel i seen args = Some run ->
    exists values,
      sent run = args ++ values /\
      ((Feeds G i values (Done (returned run)) /\
        inspected run = seen ++ List.map Ok values) \/
       (exists e suspended,
           Feeds G i values (Yielded (Err e) suspended) /\
           returned run = Err e /\
           inspected run = seen ++ List.map Ok values ++ [Err e])).
Proof.
  induction fuel as [| fuel IH]; intros i seen args run Hrun;
    destruct i as [[value | error] suspended | r]; simpl in Hrun;
    try discriminate;
    try (injection Hrun as <-; exists []; simpl; rewrite !app_nil_r;
         split; [reflexivity |];
         solve [ left; split; [constructor | reflexivity]
               | right; do 2 eexists; repeat split; constructor ]).
  apply IH in Hrun as (values & Hsent & Hcases).
  exists (value :: values). rewrite Hsent, <- app_assoc. split; [reflexivity |].
  destruct Hcases as [[Hfeeds Hseen] | (e & f & Hfeeds & Hret & Hseen)].
  - left. split; [now constructor |]. now rewrite Hseen, <- app_assoc.
  - right. exists e, f. repeat split; [now constructor | assumption |].
    now rewrite Hseen, <- app_assoc.
Qed.

End GenProperties.

(** C1: when the procedure, answered at each success with its payload,
    comes to yield a failure, the wrapped function returns that failure with
    its error; the failure is the last value it takes from the generator,
    and it has called [next] once to start the procedure and once for each
    success before the failure, and not again.  Nothing is assumed of the
    frame suspended at the failure: it is never resumed. *)
Theorem gen_stops_at_first_failure
  {T E Unknown Args : Type} (undefined : Unknown)
  (generatorFn : Args -> Generator (Result Unknown E) (Result T E) Unknown)
  (args : Args) (values : list Unknown) (e : E)
  (suspended : frame (generatorFn args)) :
  Feeds (generatorFn args)
        (next (generatorFn args) (start (generatorFn args)) undefined)
        values (Yielded (Err e) suspended) ->
  forall fuel, List.length values <= fuel ->
    ResultFactory.gen undefined generatorFn fuel args =
    Some {| ResultFactory.returned := Err e;
            ResultFactory.inspected := List.map Ok values ++ [Err e];
            ResultFactory.sent := undefined :: values |}.
Proof.
  intros Hfeeds fuel Hfuel.
  unfold ResultFactory.gen, ResultFactory.gen_call.
  rewrite (gen_loop_feeds Hfeeds) by assumption.
  apply gen_loop_Err.
Qed.

(** The procedure with steps success(A), failure(B), success(C). *)
Lemma gen_stops_at_first_failure_witness :
  ResultFactory.gen JsUndefined
    (three_steps (JsString "A") (JsString "B") (JsString "C")) 1 tt =
  Some {| ResultFactory.returned := Err (JsString "B");
          ResultFactory.inspected := [Ok (JsString "A"); Err (JsString "B")];
          ResultFactory.sent := [JsUndefined; JsString "A"] |}.
Proof.
  apply (gen_stops_at_first_failure JsUndefined
           (three_steps (JsString "A") (JsString "B") (JsString "C")) tt
           (values := [JsString "A"]) (suspended := 2)).
  - apply Feeds_resume. apply Feeds_here.
  - simpl. lia.
Defined.

(** C2: when the procedure, answered at each success with its payload,
    completes, the wrapped function returns the result the procedure
    returned; the arguments of its [next] calls are none for the first and
    then the payloads of the successes, one for each and in their order.  A
    procedure that returns before any [yield] gives its result after the one
    starting call. *)
Theorem gen_resumes_with_payloads
  {T E Unknown Args : Type} (undefined : Unknown)
  (generatorFn : Args -> Generator (Result Unknown E) (Result T E) Unknown)
  (args : Args) :
  (forall (values : list Unknown) (r : Result T E),
      Feeds (generatorFn args)
            (next (generatorFn args) (start (generatorFn args)) undefined)
            values (Done r) ->
      forall fuel, List.length values <= fuel ->
        ResultFactory.gen undefined generatorFn fuel args =
        Some {| ResultFactory.returned := r;
                ResultFactory.inspected := List.map Ok values;
                ResultFactory.sent := undefined :: values |}) /\
  (forall r : Result T E,
      next (generatorFn args) (start (generatorFn args)) undefined = Done r ->
      forall fuel,
        ResultFactory.gen undefined generatorFn fuel args =
        Some {| ResultFactory.returned := r;
                ResultFactory.inspected := [];
                ResultFactory.sent := [undefined] |}).
Proof.
  split.
  - intros values r Hfeeds fuel Hfuel.
    unfold ResultFactory.gen, ResultFactory.gen_call.
    rewrite (gen_loop_feeds Hfeeds) by assumption.
    apply gen_loop_Done.
  - intros r Hdone fuel.
    unfold ResultFactory.gen, ResultFactory.gen_call.
    rewrite Hdone. apply gen_loop_Done.
Qed.

(** The procedure that yields success(10) and success(20) and returns the
    success of the sum of what it got back; and the one that returns at
    once. *)
Lemma gen_resumes_with_payloads_witness :
  ResultFactory.gen JsUndefined sum_of_two 2 tt =
  Some {| ResultFactory.returned := Ok (JsNumber 30);
          ResultFactory.inspected := [Ok (JsNumber 10); Ok (JsNumber 20)];
          ResultFactory.sent := [JsUndefined; JsNumber 10; JsNumber 20] |} /\
  ResultFactory.gen JsUndefined early_return 0 tt =
  Some {| ResultFactory.returned := Err (JsString "Negative not allowed");
          ResultFactory.inspected := [];
          ResultFactory.sent := [JsUndefined] |}.
Proof.
  split.
  - apply (proj1 (gen_resumes_with_payloads JsUndefined sum_of_two tt)
             [JsNumber 10; JsNumber 20] (Ok (JsNumber 30))).
    + apply Feeds_resume. apply Feeds_resume. apply Feeds_here.
    + simpl. lia.
  - apply (proj2 (gen_resumes_with_payloads JsUndefined early_return tt)).
    reflexivity.
Defined.

Section IteratorProperties.
Context {T E : Type}.

(** C3, as the code has it: the iterator of [Ok v] completes with [v] at
    the first [next] call, having yielded nothing; the iterator of [Err e]
    yields [Err e] at the first call, and at the second completes with the
    argument of that call. *)
Theorem Result_iterator_protocol :
  (forall v x : T,
      next (iterator (E:=E) (Ok v)) (start (iterator (Ok v))) x = Done v) /\
  (forall (e : E) (x : T),
      next (iterator (Err e)) (start (iterator (Err e))) x =
      Yielded (Err e) ErrAtYield) /\
  (forall (e : E) (x : T),
      next (iterator (Err e)) ErrAtYield x = Done x).
Proof. repeat split. Qed.

End IteratorProperties.

(** C3, as stated, fails: resumed the way [for...of] and spread do it, with
    no argument, the iterator of a failure completes with [undefined], and
    resumed with 7 it completes with 7; neither is the failure. *)
Lemma Err_iterator_completes_with_sent_value :
  let this : Result JsValue JsValue := Err (JsString "error") in
  next (iterator this) ErrAtYield JsUndefined = Done JsUndefined /\
  next (iterator this) ErrAtYield JsUndefined <> Done (asValue this) /\
  next (iterator this) ErrAtYield (JsNumber 7) = Done (JsNumber 7) /\
  next (iterator this) ErrAtYield (JsNumber 7) <> Done (asValue this).
Proof. repeat split; discriminate. Qed.

Section TryPromiseProperties.
Context {T W D : Type}.
Variable product : D -> Z -> D.
Variable tryFn : W -> Settled T * W.
Variable catchFn : option (JsValue -> JsValue).
Import ResultFactory.
Local Open Scope Z_scope.

Section Loop.
Variable retry : option (Retry D).

Lemma tryPromise_loop_exit attempt w log :
  maxAttempts retry <= attempt ->
  tryPromise_loop product tryFn catchFn retry attempt w log =
  (Err (JsError "Unexpected retry error"), (w, log)).
Proof.
  intros H. rewrite tryPromise_loop_unfold_eq. unfold tryPromise_loop_unfold.
  destruct (Z_lt_dec attempt (maxAttempts retry)); [lia | reflexivity].
Qed.

(** One turn of the loop, when its condition holds. *)
Lemma tryPromise_loop_step attempt w log :
  attempt < maxAttempts retry ->
  tryPromise_loop product tryFn catchFn retry attempt w log =
  match tryFn w with
  | (Fulfilled value, w') => (Ok value, (w', log ++ [Invoke]))
  | (Rejected error, w') =>
      if attempt =? maxAttempts retry - 1
      then (Err (match catchFn with Some f => f error | None => error end),
            (w', log ++ [Invoke]))
      else tryPromise_loop product tryFn catchFn retry (attempt + 1) w'
             (match retry with
              | Some r => log ++ [Invoke] ++ [SetTimeout (delay product r attempt)]
              | None => log ++ [Invoke]
              end)
  end.
Proof.
  intros H. rewrite tryPromise_loop_unfold_eq at 1.
  unfold tryPromise_loop_unfold.
  destruct (Z_lt_dec attempt (maxAttempts retry)); [| lia]. simpl.
  destruct (tryFn w) as [[v | e] w']; simpl; try reflexivity.
  destruct (attempt =? maxAttempts retry - 1); reflexivity.
Qed.

End Loop.

Lemma world_after_S k : forall w,
  world_after tryFn (S k) w = snd (tryFn (world_after tryFn k w)).
Proof.
  induction k as [| k IH]; intros w; [reflexivity |].
  change (world_after tryFn (S (S k)) w)
    with (world_after tryFn (S k) (snd (tryFn w))).
  rewrite IH. reflexivity.
Qed.

Lemma tryFn_outcome k w :
  tryFn (world_after tryFn k w) =
  (outcome tryFn k w, world_after tryFn (S k) w).
Proof.
  rewrite world_after_S. unfold outcome.
  destruct (tryFn (world_after tryFn k w)); reflexivity.
Qed.


(** [k] rejected attempts that are not the last one take the loop [k] turns
    further, each with its wait. *)
Lemma tryPromise_loop_retries (r : Retry D) k :
  forall attempt w log,
    attempt + Z.of_nat k < maxAttempts (Some r) ->
    (forall i, (i < k)%nat -> rejected (outcome tryFn i w)) ->
    exists log',
      tryPromise_loop product tryFn catchFn (Some r) attempt w log =
      tryPromise_loop product tryFn catchFn (Some r) (attempt + Z.of_nat k)
        (world_after tryFn k w) (log ++ log') /\
      log' ++ [Invoke] = schedule_from product (backoff r) (delayMs r) attempt k.
Proof.
  induction k as [| k IH]; intros attempt w log Hlt Hrej.
  - exists []. now rewrite Z.add_0_r, app_nil_r.
  - destruct (Hrej 0%nat ltac:(lia)) as [reason Hreason].
    unfold outcome in Hreason. simpl in Hreason.
    destruct (IH (attempt + 1) (snd (tryFn w))
                 (log ++ [Invoke] ++ [SetTimeout (delay product r attempt)]))
      as (log' & Hloop & Hlog).
    + lia.
    + intros i Hi. apply (Hrej (S i)). lia.
    + exists ([Invoke; SetTimeout (delay product r attempt)] ++ log'). split.
      * rewrite tryPromise_loop_step by lia.
        destruct (tryFn w) as [s w'] eqn:Htry. simpl in Hreason. subst s.
        destruct (Z.eqb_spec attempt (maxAttempts (Some r) - 1)); [lia |].
        simpl in Hloop |- *. rewrite Hloop.
        rewrite <- app_assoc. simpl.
        f_equal; [lia | now rewrite Htry].
      * simpl. rewrite Hlog. unfold delay.
        destruct (backoff r) as [[|] |]; reflexivity.
Qed.



(** C10: with a negative [times] the loop body never runs: the thunk is not
    called, and the result is the failure of a fresh
    [Error("Unexpected retry error")]. *)
Theorem tryPromise_negative_times (r : Retry D) (w : W) :
  times r < 0 ->
  tryPromise product tryFn catchFn (Some r) w =
  (Err (JsError "Unexpected retry error"), (w, [])).
Proof.
  intros Hneg. unfold tryPromise.
  apply tryPromise_loop_exit. simpl. lia.
Qed.

End TryPromiseProperties.



(** [retry: { times: -1, delayMs: 10 }]. *)
Lemma tryPromise_negative_times_witness :
  ResultFactory.tryPromise ResultFactory.double_product (fails_first 0) None
    (Some {| ResultFactory.times := -1;
             ResultFactory.delayMs := 10%float;
             ResultFactory.backoff := None |}) 0 =
  (Err (JsError "Unexpected retry error"), (0, [])).
Proof.
  apply (@tryPromise_negative_times JsValue nat float
           ResultFactory.double_product (fails_first 0) None
           {| ResultFactory.times := -1;
              ResultFactory.delayMs := 10%float;
              ResultFactory.backoff := None |} 0).
  simpl. lia.
Defined.

(* ===================================================================== *)
(** * The cases of the test suite *)
(* ===================================================================== *)

Section TestSuite.
Import ResultFactory.
Local Open Scope string_scope.

Example test_gen_auto_unwrap :
  option_map returned (gen JsUndefined (calculate (JsNumber 4)) 0 tt) =
  Some (Ok (JsNumber 5)).
Proof. reflexivity. Qed.

Example test_gen_propagates :
  gen JsUndefined (calculate (JsNumber 0)) 0 tt =
  Some {| returned := Err (JsString "Division by zero");
          inspected := [Err (JsString "Division by zero")];
          sent := [JsUndefined] |}.
Proof. reflexivity. Qed.

Example test_all_collects :
  all [Ok 1; Ok 2; Ok 3] = (Ok [1; 2; 3] : Result (list nat) string).
Proof. reflexivity. Qed.

Example test_all_first_error :
  all [Ok 1; Err "first"; Err "second"] = Err "first" /\
  all_visited [Ok 1; Err "first"; Err "second"] = [Ok 1; Err "first"].
Proof. split; reflexivity. Qed.

Example test_partition :
  partition [Ok 1; Err "error1"; Ok 2; Err "error2"; Ok 3] =
  {| okValues := [1; 2; 3]; errValues := ["error1"; "error2"] |}.
Proof. reflexivity. Qed.

Example test_iterator_Ok :
  next (iterator (E:=string) (Ok 42)) tt 0 = Done 42.
Proof. reflexivity. Qed.

Example test_iterator_Err :
  next (iterator (T:=nat) (Err "error")) ErrStart 0 =
  Yielded (Err "error") ErrAtYield.
Proof. reflexivity. Qed.

Example test_unwrap_Err (stringify : string -> Completion string)
  (text : string) :
  stringify "error" = Returns text ->
  unwrap (T:=nat) stringify (Err "error") =
  Throws (JsError ("Called unwrap on an Err value: " ++ text)).
Proof. intros H. simpl. now rewrite H. Qed.

Example test_retry_linear :
  tryPromise double_product (fails_first 2) None
    (Some {| times := 3; delayMs := 10%float; backoff := Some linear |}) 0 =
  (Ok (JsString "success"),
   (3, [Invoke; SetTimeout 10%float; Invoke; SetTimeout 10%float; Invoke])).
Proof. reflexivity. Qed.

Example test_catch_handler :
  tryPromise double_product (fails_first 1)
    (Some (fun _ => JsString "NETWORK_ERROR")) None 0 =
  (Err (JsString "NETWORK_ERROR"), (1, [Invoke])).
Proof. reflexivity. Qed.

Example test_retries_exhausted :
  tryPromise double_product (fails_first 5) None
    (Some {| times := 2; delayMs := 10%float; backoff := Some exponential |}) 0 =
  (Err (JsError "Not yet"),
   (3, [Invoke; SetTimeout 10%float; Invoke; SetTimeout 20%float; Invoke])).
Proof. reflexivity. Qed.

End TestSuite.

(* ===================================================================== *)
(** * Further properties of the combinators *)
(* ===================================================================== *)

Section ResultAlgebra.
Context {T U V E F G : Type}.

(** X1: [flatMap] with [ok] is a monad: [ok(v).flatMap(f)] is [f(v)],
    [r.flatMap(ok)] is [r], nested [flatMap]s reassociate, and a failure
    passes through without a call of the function. *)
Theorem flatMap_monad_laws :
  (forall (v : T) (f : T -> Result U E), flatMap (Ok v) f = f v) /\
  (forall r : Result T E, flatMap r ResultFactory.ok = r) /\
  (forall (r : Result T E) (f : T -> Result U E) (g : U -> Result V E),
      flatMap (flatMap r f) g = flatMap r (fun x => flatMap (f x) g)) /\
  (forall (e : E) (f f' : T -> Result U E),
      flatMap (Err e) f = Err e /\ flatMap (Err e) f = flatMap (Err e) f').
Proof.
  split; [| split; [| split]].
  - reflexivity.
  - intros [v | e]; reflexivity.
  - intros [v | e] f g; reflexivity.
  - intros e f f'. split; reflexivity.
Qed.

(** X2: [map] is [flatMap] into [ok]; [mapErr] keeps the identity and
    composition; [map] and [mapErr] act on different sides, so they commute
    and neither changes the variant. *)
Theorem map_mapErr_bifunctor :
  (forall (r : Result T E) (f : T -> U),
      map r f = flatMap r (fun x => ResultFactory.ok (f x))) /\
  (forall r : Result T E, mapErr r (fun e => e) = r) /\
  (forall (r : Result T E) (f : E -> F) (g : F -> G),
      mapErr (mapErr r f) g = mapErr r (fun e => g (f e))) /\
  (forall (r : Result T E) (f : T -> U) (g : E -> F),
      mapErr (map r f) g = map (mapErr r g) f) /\
  (forall (r : Result T E) (f : T -> U) (g : E -> F),
      isOk (map r f) = isOk r /\ isOk (mapErr r g) = isOk r).
Proof.
  split; [| split; [| split; [| split]]].
  - intros [v | e] f; reflexivity.
  - intros [v | e]; reflexivity.
  - intros [v | e] f g; reflexivity.
  - intros [v | e] f g; reflexivity.
  - intros [v | e] f g; split; reflexivity.
Qed.

(** X3: [and] is [flatMap] with a constant function; [and] succeeds when
    both do and [or] when one does; both are associative; [or] keeps the
    first success and [and] the first failure. *)
Theorem and_or_algebra :
  (forall (r : Result T E) (s : Result U E),
      and_ r s = flatMap r (fun _ => s)) /\
  (forall (r : Result T E) (s : Result U E),
      isOk (and_ r s) = (isOk r && isOk s)%bool) /\
  (forall r s : Result T E, isOk (or_ r s) = (isOk r || isOk s)%bool) /\
  (forall (r : Result T E) (s : Result U E) (t : Result V E),
      and_ (and_ r s) t = and_ r (and_ s t)) /\
  (forall r s t : Result T E, or_ (or_ r s) t = or_ r (or_ s t)) /\
  (forall (v : T) (s : Result T E), or_ (Ok v) s = Ok v) /\
  (forall (e : E) (s : Result U E), and_ (T:=T) (Err e) s = Err e).
Proof.
  repeat split; intros [v | e]; intros; reflexivity.
Qed.

Variable JSON_stringify : E -> Completion string.

(** X4: the extraction methods agree: [unwrapOr] and [unwrapOrElse] return
    what [unwrap] returns when it returns, and the default (computed from
    the error) where it throws; [expect] returns exactly when [unwrap]
    does, with the same value, and otherwise throws, on an error that can
    be serialized, an [Error] whose message is the given one, a colon, and
    the serialized error, and, on one that cannot, what the serialization
    throws. *)
Theorem extraction_methods_agree :
  (forall (r : Result T E) (d : T),
      unwrapOr r d =
      match unwrap JSON_stringify r with Returns v => v | Throws _ => d end) /\
  (forall (r : Result T E) (d : T),
      unwrapOr r d = unwrapOrElse r (fun _ => d)) /\
  (forall (r : Result T E) (fn : E -> T),
      unwrapOrElse r fn = match_ r (fun v => v) fn) /\
  (forall (r : Result T E) (msg : string) (v : T),
      expect JSON_stringify r msg = Returns v <->
      unwrap JSON_stringify r = Returns v) /\
  (forall (r : Result T E) (msg : string) (fault : JsValue),
      expect JSON_stringify r msg = Throws fault <->
      exists e, r = Err e /\
                ((exists text, JSON_stringify e = Returns text /\
                               fault = JsError (msg ++ ": " ++ text)) \/
                 JSON_stringify e = Throws fault)).
Proof.
  split; [| split; [| split; [| split]]].
  - intros [v | e] d; simpl; [| destruct (JSON_stringify e)]; reflexivity.
  - intros [v | e] d; reflexivity.
  - intros [v | e] fn; reflexivity.
  - intros [v | e] msg v'; simpl; [| destruct (JSON_stringify e)];
      split; intros H; congruence.
  - intros [v | e] msg fault; simpl; split.
    + discriminate.
    + intros (e' & He & _). discriminate.
    + destruct (JSON_stringify e) as [text | fault'] eqn:Hs.
      * intros [= <-]. exists e. split; [reflexivity |]. left. now exists text.
      * intros [= <-]. exists e. split; [reflexivity |]. now right.
    + intros (e' & [= <-] & [(text & Hs & ->) | Hs]); now rewrite Hs.
Qed.

End ResultAlgebra.

Section OptionAlgebra.
Context {T U V E : Type}.

(** X5: [Option]'s [map] keeps the identity and composition and is
    [flatMap] into [some]; [flatMap] with [some] is a monad, and [None]
    passes through. *)
Theorem Option_functor_monad_laws :
  (forall o : Option.Option T, Option.map o (fun x => x) = o) /\
  (forall (o : Option.Option T) (f : T -> U) (g : U -> V),
      Option.map (Option.map o f) g = Option.map o (fun x => g (f x))) /\
  (forall (o : Option.Option T) (f : T -> U),
      Option.map o f = Option.flatMap o (fun x => Option.some (f x))) /\
  (forall (v : T) (f : T -> Option.Option U),
      Option.flatMap (Option.some v) f = f v) /\
  (forall o : Option.Option T, Option.flatMap o Option.some = o) /\
  (forall (o : Option.Option T) (f : T -> Option.Option U)
          (g : U -> Option.Option V),
      Option.flatMap (Option.flatMap o f) g =
      Option.flatMap o (fun x => Option.flatMap (f x) g)) /\
  (forall f : T -> Option.Option U,
      Option.flatMap Option.none f = Option.none).
Proof.
  repeat split; try (intros [v |]; intros; reflexivity).
Qed.



(** X8: on options [and] holds a value when both do and [or] when one
    does; both are associative; [or] keeps the first value, and [None] is
    its unit. *)
Theorem Option_and_or_algebra :
  (forall (o : Option.Option T) (s : Option.Option U),
      Option.and_ o s = Option.flatMap o (fun _ => s)) /\
  (forall (o : Option.Option T) (s : Option.Option U),
      Option.isSome (Option.and_ o s) =
      (Option.isSome o && Option.isSome s)%bool) /\
  (forall o s : Option.Option T,
      Option.isSome (Option.or_ o s) =
      (Option.isSome o || Option.isSome s)%bool) /\
  (forall (o : Option.Option T) (s : Option.Option U) (t : Option.Option V),
      Option.and_ (Option.and_ o s) t = Option.and_ o (Option.and_ s t)) /\
  (forall o s t : Option.Option T,
      Option.or_ (Option.or_ o s) t = Option.or_ o (Option.or_ s t)) /\
  (forall o : Option.Option T,
      Option.or_ Option.none o = o /\ Option.or_ o Option.none = o).
Proof.
  split; [| split; [| split; [| split; [| split]]]];
    try (intros [v |]; intros; reflexivity).
  intros [v |]; split; reflexivity.
Qed.

End OptionAlgebra.

Section Capture.
Context {T E : Type}.
Variable JSON_stringify : E -> Completion string.

(** X9: [fromThrowable] turns what a call throws into a failure and what
    it returns into a success.  Around the throwing extractions it gives:
    for [Option]'s [unwrap] and [expect], [okOr] with the [Error] they
    throw; for [Result]'s [unwrap], [mapErr] with the fault it throws (the
    [Error] built from the serialized error, or what the serialization
    throws); for [expectErr], the error as a success and an [Error] with
    the message as the failure. *)
Theorem fromThrowable_captures_extraction :
  (forall fn : unit -> Completion T,
      isOk (ResultFactory.fromThrowable fn) =
      match fn tt with Returns _ => true | Throws _ => false end) /\
  (forall o : Option.Option T,
      ResultFactory.fromThrowable (fun _ => Option.unwrap o) =
      Option.okOr o (JsError "Called unwrap on a None value")) /\
  (forall (o : Option.Option T) (msg : string),
      ResultFactory.fromThrowable (fun _ => Option.expect o msg) =
      Option.okOr o (JsError msg)) /\
  (forall r : Result T E,
      ResultFactory.fromThrowable (fun _ => unwrap JSON_stringify r) =
      mapErr r (fun e =>
        match JSON_stringify e with
        | Returns text => JsError ("Called unwrap on an Err value: " ++ text)
        | Throws fault => fault
        end)) /\
  (forall (r : Result T E) (msg : string),
      ResultFactory.fromThrowable (fun _ => expectErr r msg) =
      match_ r (fun _ => Err (JsError msg)) (fun e => Ok e)).
Proof.
  split; [| split; [| split; [| split]]].
  - intros fn. unfold ResultFactory.fromThrowable. destruct (fn tt); reflexivity.
  - intros [v |]; reflexivity.
  - intros [v |] msg; reflexivity.
  - intros [v | e]; [reflexivity |].
    unfold ResultFactory.fromThrowable. simpl.
    destruct (JSON_stringify e); reflexivity.
  - intros [v | e] msg; reflexivity.
Qed.

End Capture.

Section AggregateFacts.
Context {T E : Type}.
Import ResultFactory.

Lemma successes_app (xs ys : list (Result T E)) :
  successes (xs ++ ys) = successes xs ++ successes ys.
Proof. apply flat_map_app. Qed.

Lemma failures_app (xs ys : list (Result T E)) :
  failures (xs ++ ys) = failures xs ++ failures ys.
Proof. apply flat_map_app. Qed.

Lemma all_loop_result (results : list (Result T E)) :
  forall acc visited,
    fst (all_loop results acc visited) =
    match failures results with
    | [] => Ok (acc ++ successes results)
    | e :: _ => Err e
    end.
Proof.
  induction results as [| [v | e] results IH]; intros acc visited; simpl.
  - now rewrite app_nil_r.
  - rewrite IH, <- app_assoc. reflexivity.
  - reflexivity.
Qed.

End AggregateFacts.

Section AggregateAlgebra.
Context {T U E F : Type}.
Import ResultFactory.

(** X10: [all] and [partition] tell the same story: [all] succeeds exactly
    when [partition] finds no error, and then with [partition]'s values;
    otherwise it fails with the first of [partition]'s errors. *)
Theorem all_agrees_with_partition (results : list (Result T E)) :
  all results =
  match errValues (partition results) with
  | [] => Ok (okValues (partition results))
  | e :: _ => Err e
  end.
Proof.
  unfold all, partition.
  rewrite all_loop_result, partition_loop_spec. reflexivity.
Qed.

(** X11: [all] of a concatenation is [all] of the first part and then, if
    that succeeds, [all] of the second with the values put together; a
    failure in the first part hides the second. *)
Theorem all_app (xs ys : list (Result T E)) :
  all (xs ++ ys) =
  flatMap (all xs) (fun a => map (all ys) (fun b => a ++ b)).
Proof.
  unfold all. rewrite !all_loop_result, failures_app, successes_app.
  destruct (failures xs), (failures ys); reflexivity.
Qed.

(** X12: [partition] of a concatenation is the concatenation of the
    partitions, list by list. *)
Theorem partition_app (xs ys : list (Result T E)) :
  partition (xs ++ ys) =
  {| okValues := okValues (partition xs) ++ okValues (partition ys);
     errValues := errValues (partition xs) ++ errValues (partition ys) |}.
Proof.
  unfold partition. rewrite !partition_loop_spec. simpl.
  now rewrite successes_app, failures_app.
Qed.

Lemma successes_map (f : T -> U) (g : E -> F) (results : list (Result T E)) :
  successes (List.map (fun r => mapErr (map r f) g) results) =
  List.map f (successes results).
Proof.
  induction results as [| [v | e] results IH]; simpl; congruence.
Qed.

Lemma failures_map (f : T -> U) (g : E -> F) (results : list (Result T E)) :
  failures (List.map (fun r => mapErr (map r f) g) results) =
  List.map g (failures results).
Proof.
  induction results as [| [v | e] results IH]; simpl; congruence.
Qed.

(** X13: for functions [f] and [g] that return and have no effect, mapping
    every element and then collecting is collecting and then mapping: [all]
    of the array with [map(f)] and [mapErr(g)] applied to each element is
    [all] of the array with [f] applied to each value and [g] to the error;
    the same holds of [partition]. *)
Theorem all_partition_natural (f : T -> U) (g : E -> F)
  (results : list (Result T E)) :
  all (List.map (fun r => mapErr (map r f) g) results) =
    mapErr (map (all results) (List.map f)) g /\
  partition (List.map (fun r => mapErr (map r f) g) results) =
    {| okValues := List.map f (okValues (partition results));
       errValues := List.map g (errValues (partition results)) |}.
Proof.
  unfold all, partition. split.
  - rewrite (all_loop_result (List.map _ results)), (all_loop_result results).
    rewrite successes_map, failures_map.
    destruct (failures results); reflexivity.
  - rewrite (partition_loop_spec (List.map _ results)),
      (partition_loop_spec results).
    rewrite successes_map, failures_map. reflexivity.
Qed.

(** X14: when [all] succeeds its array of values is as long as the input,
    every input element was a success, and the values are the payloads in
    order. *)
Theorem all_Ok_length (results : list (Result T E)) (values : list T) :
  all results = Ok values ->
  List.length values = List.length results /\
  results = List.map Ok values /\
  all_visited results = results.
Proof.
  intros Hall.
  destruct (first_failure_split results)
    as [[vs ->] | (vs & e & rest & ->)].
  - unfold all, all_visited in *.
    rewrite <- (app_nil_r (List.map Ok vs)), all_loop_successes in *.
    simpl in *. injection Hall as <-.
    rewrite app_nil_r, length_map. auto.
  - unfold all in Hall. rewrite all_loop_successes in Hall. discriminate.
Qed.

End AggregateAlgebra.

Lemma all_Ok_length_witness :
  List.length [1; 2; 3] = List.length [@Ok nat string 1; Ok 2; Ok 3] /\
  [Ok 1; Ok 2; Ok 3] = List.map (@Ok nat string) [1; 2; 3] /\
  ResultFactory.all_visited [@Ok nat string 1; Ok 2; Ok 3] = [Ok 1; Ok 2; Ok 3].
Proof.
  apply (@all_Ok_length nat string [Ok 1; Ok 2; Ok 3] [1; 2; 3]).
  reflexivity.
Defined.

(* ===================================================================== *)
(** * Further properties of [gen] *)
(* ===================================================================== *)

Section GenAlgebra.
Context {T E : Type}.
Import ResultFactory.

(** [yield_star] follows the iterator of the result it delegates to: an
    [Ok] completes at the first call with its value, an [Err] is yielded at
    the first call and completes at the second with what that call sends. *)
Lemma yield_star_follows_iterator (k : JsValue -> Body T E) :
  (forall v : JsValue,
      next (iterator (E:=E) (Ok v)) (start (iterator (Ok v))) JsUndefined
        = Done v /\
      yield_star (Ok v) k = k v) /\
  (forall e : E,
      next (iterator (T:=JsValue) (Err e)) (start (iterator (Err e)))
           JsUndefined = Yielded (Err e) ErrAtYield /\
      (forall x, next (iterator (T:=JsValue) (Err e)) ErrAtYield x = Done x) /\
      yield_star (Err e) k = Yield (Err e) k).
Proof. repeat split. Qed.

(** X15: [gen(function* () { const x = yield* r; return f(x) })] returns
    [r.flatMap(f)], for any fuel, after the one starting call of [next]: an
    [Ok] never suspends the procedure, and an [Err] is the one value [gen]
    takes from it. *)
Theorem gen_yield_star_is_flatMap (r : Result JsValue E)
  (f : JsValue -> Result T E) (fuel : nat) :
  gen JsUndefined
      (fun _ : unit => generator_of (yield_star r (fun x => Return (f x))))
      fuel tt =
  Some {| returned := flatMap r f;
          inspected := match r with Ok _ => [] | Err _ => [r] end;
          sent := [JsUndefined] |}.
Proof.
  unfold gen, gen_call. destruct r as [v | e]; simpl.
  - now rewrite gen_loop_Done.
  - now rewrite gen_loop_Err.
Qed.

End GenAlgebra.

Section GenCollect.
Context {E : Type}.
Import ResultFactory.

Lemma gen_loop_collect (b0 : Body (list JsValue) E)
  (results : list (Result JsValue E)) :
  forall acc fuel seen args,
    gen_loop (generator_of b0) fuel (run_body (collect results acc)) seen args =
    Some {| returned := match failures results with
                        | [] => Ok (acc ++ successes results)
                        | e :: _ => Err e
                        end;
            inspected := seen ++ match failures results with
                                 | [] => []
                                 | e :: _ => [Err e]
                                 end;
            sent := args |}.
Proof.
  induction results as [| [v | e] results IH]; intros acc fuel seen args; simpl.
  - rewrite !app_nil_r. apply gen_loop_Done.
  - rewrite IH, <- app_assoc. reflexivity.
  - now rewrite gen_loop_Err.
Qed.

(** X16: the procedure that takes the elements of an array one by one with
    [yield*] and returns the success of what it got, run by [gen], returns
    what [all] returns on the array, after the one starting call of [next];
    the only value [gen] takes from it is the first failure, if there is
    one. *)
Theorem gen_collect_is_all (results : list (Result JsValue E)) (fuel : nat) :
  gen JsUndefined (fun _ : unit => generator_of (collect results [])) fuel tt =
  Some {| returned := all results;
          inspected := match failures results with
                       | [] => []
                       | e :: _ => [Err e]
                       end;
          sent := [JsUndefined] |}.
Proof.
  unfold gen, gen_call. simpl.
  rewrite gen_loop_collect. unfold all. rewrite all_loop_result. reflexivity.
Qed.

End GenCollect.

Section GenInvariants.
Context {T E Unknown Args : Type}.

Lemma successes_map_Ok (values : list Unknown) :
  successes (List.map (@Ok Unknown E) values) = values.
Proof. induction values; simpl; congruence. Qed.

Lemma failures_map_Ok (values : list Unknown) :
  failures (List.map (@Ok Unknown E) values) = [].
Proof. induction values; simpl; congruence. Qed.

(** X17: whenever a call of the wrapped function returns, whatever the
    generator: the arguments of its [next] calls are none for the first and
    then the payloads of the successes it took from the generator, in
    order; and either it took no failure, or it took one, as the last
    value, and returned it. *)
Theorem gen_run_invariants (undefined : Unknown)
  (generatorFn : Args -> Generator (Result Unknown E) (Result T E) Unknown)
  (fuel : nat) (args : Args) (run : @ResultFactory.GenRun T E Unknown) :
  ResultFactory.gen undefined generatorFn fuel args = Some run ->
  ResultFactory.sent run = undefined :: successes (ResultFactory.inspected run) /\
  (failures (ResultFactory.inspected run) = [] \/
   exists e,
     failures (ResultFactory.inspected run) = [e] /\
     ResultFactory.returned run = Err e /\
     ResultFactory.inspected run =
       List.map Ok (successes (ResultFactory.inspected run)) ++ [Err e]).
Proof.
  unfold ResultFactory.gen, ResultFactory.gen_call. intros Hrun.
  apply gen_loop_sound in Hrun
    as (values & Hsent & [[_ Hseen] | (e & f & _ & Hret & Hseen)]);
    simpl in Hseen, Hsent; rewrite Hsent, Hseen.
  - rewrite successes_map_Ok, failures_map_Ok. auto.
  - rewrite successes_app, failures_app, successes_map_Ok, failures_map_Ok.
    simpl. rewrite app_nil_r. split; [reflexivity |].
    right. exists e. auto.
Qed.

End GenInvariants.

Lemma gen_run_invariants_witness :
  [JsUndefined; JsString "A"] =
    JsUndefined :: successes [Ok (JsString "A"); @Err JsValue _ (JsString "B")] /\
  (failures [Ok (JsString "A"); @Err JsValue _ (JsString "B")] = [] \/
   exists e,
     failures [Ok (JsString "A"); @Err JsValue _ (JsString "B")] = [e] /\
     @Err JsValue _ (JsString "B") = Err e /\
     [Ok (JsString "A"); Err (JsString "B")] =
       List.map Ok (successes [Ok (JsString "A"); @Err JsValue _ (JsString "B")])
         ++ [Err e]).
Proof.
  apply (@gen_run_invariants JsValue JsValue JsValue unit JsUndefined
           (three_steps (JsString "A") (JsString "B") (JsString "C")) 1 tt
           {| ResultFactory.returned := Err (JsString "B");
              ResultFactory.inspected := [Ok (JsString "A"); Err (JsString "B")];
              ResultFactory.sent := [JsUndefined; JsString "A"] |}).
  reflexivity.
Defined.

(* ===================================================================== *)
(** * Further properties of [tryPromise] *)
(* ===================================================================== *)

Lemma invocations_schedule_from {D : Type} (product : D -> Z -> D) b d k :
  forall a, invocations (schedule_from product b d a k) = S k.
Proof.
  induction k as [| k IH]; intros a; [reflexivity |].
  simpl. unfold invocations in *. simpl. now rewrite IH.
Qed.

Lemma total_wait_schedule_from b d k :
  forall a, (0 <= a)%Z ->
    total_wait (schedule_from ResultFactory.exact_product b d a k) =
    match b with
    | Some ResultFactory.exponential => (d * 2 ^ a * (2 ^ Z.of_nat k - 1))%Z
    | _ => (d * Z.of_nat k)%Z
    end.
Proof.
  induction k as [| k IH]; intros a Ha.
  - destruct b as [[|] |]; simpl; lia.
  - cbn [schedule_from total_wait fold_right].
    fold (total_wait (schedule_from ResultFactory.exact_product b d (a + 1) k)).
    rewrite IH by lia. unfold ResultFactory.exact_product.
    destruct b as [[|] |]; try lia.
    rewrite Nat2Z.inj_succ, !Z.pow_succ_r, Z.pow_add_r by lia.
    change (2 ^ 1)%Z with 2%Z. ring.
Qed.

Section TryPromiseAlgebra.
Context {T W D : Type}.
Variable product : D -> Z -> D.
Variable tryFn : W -> Settled T * W.
Variable catchFn : option (JsValue -> JsValue).
Import ResultFactory.
Local Open Scope Z_scope.

(** Within the budget, the first [k] calls rejected, and the next either
    fulfilled or the last of the budget: the helper stops at that call. *)
Lemma tryPromise_stops_at (r : Retry D) (w : W) (k : nat) :
  Z.of_nat k <= times r ->
  (forall i, (i < k)%nat -> rejected (outcome tryFn i w)) ->
  (exists v, outcome tryFn k w = Fulfilled v) \/ Z.of_nat k = times r ->
  tryPromise product tryFn catchFn (Some r) w =
  (match outcome tryFn k w with
   | Fulfilled v => Ok v
   | Rejected reason =>
       Err (match catchFn with Some f => f reason | None => reason end)
   end,
   (world_after tryFn (S k) w, schedule product (backoff r) (delayMs r) k)).
Proof.
  intros Hk Hrej Hstop. unfold tryPromise.
  destruct (@tryPromise_loop_retries T W D product tryFn catchFn r k 0 w [])
    as (log' & Hloop & Hlog); [simpl; lia | assumption |].
  rewrite Hloop, tryPromise_loop_step by (simpl; lia).
  rewrite tryFn_outcome. unfold schedule. rewrite <- Hlog.
  destruct (outcome tryFn k w) as [v | reason]; [reflexivity |].
  destruct Hstop as [[v Hv] | Hlast]; [discriminate |].
  destruct (Z.eqb_spec (0 + Z.of_nat k) (maxAttempts (Some r) - 1))
    as [_ | Hne]; [reflexivity | simpl in Hne; lia].
Qed.


(** X18: without [retry], [tryPromise] is [fromPromise] on the promise of
    the one call of the thunk, followed by [mapErr] with the mapper when
    there is one. *)
Theorem tryPromise_without_retry_is_fromPromise (w : W) :
  tryPromise product tryFn catchFn None w =
  (match catchFn with
   | Some f => mapErr (fromPromise (fst (tryFn w))) f
   | None => fromPromise (fst (tryFn w))
   end,
   (snd (tryFn w), [Invoke])).
Proof.
  unfold tryPromise. rewrite tryPromise_loop_step by (simpl; lia).
  destruct (tryFn w) as [[v | reason] w']; simpl;
    destruct catchFn; reflexivity.
Qed.

(** X19: [retry] with [times: 0] is no retry at all: one call, no wait,
    the same result, whatever [delayMs] and [backoff]. *)
Theorem tryPromise_zero_times (r : Retry D) (w : W) :
  times r = 0 ->
  tryPromise product tryFn catchFn (Some r) w = tryPromise product tryFn catchFn None w.
Proof.
  intros H0. unfold tryPromise.
  rewrite !tryPromise_loop_step by (simpl; lia).
  destruct (tryFn w) as [[v | reason] w']; [reflexivity |].
  simpl. rewrite H0. reflexivity.
Qed.


End TryPromiseAlgebra.

Section TryPromiseExact.
Context {T W : Type}.
Variable tryFn : W -> Settled T * W.
Variable catchFn : option (JsValue -> JsValue).
Import ResultFactory.
Local Open Scope Z_scope.

(** X21: with an integer [delayMs] and the delays computed exactly, when
    the helper stops at call [k] (from zero), it has waited [k * delayMs]
    in all with linear backoff and [delayMs * (2 ^ k - 1)] with exponential
    backoff, and it has called the thunk [k + 1] times. *)
Theorem tryPromise_total_wait (r : Retry Z) (w : W) (k : nat) :
  Z.of_nat k <= times r ->
  (forall i, (i < k)%nat -> rejected (outcome tryFn i w)) ->
  (exists v, outcome tryFn k w = Fulfilled v) \/ Z.of_nat k = times r ->
  total_wait (snd (snd (tryPromise exact_product tryFn catchFn (Some r) w))) =
    match backoff r with
    | Some exponential => delayMs r * (2 ^ Z.of_nat k - 1)
    | _ => delayMs r * Z.of_nat k
    end /\
  invocations (snd (snd (tryPromise exact_product tryFn catchFn (Some r) w)))
    = S k.
Proof.
  intros Hk Hrej Hstop.
  rewrite (@tryPromise_stops_at T W Z exact_product tryFn catchFn r w k)
    by assumption.
  simpl.
  unfold schedule.
  rewrite invocations_schedule_from, total_wait_schedule_from by lia.
  split; [| reflexivity].
  destruct (backoff r) as [[|] |]; try reflexivity.
  change (2 ^ 0) with 1. ring.
Qed.

End TryPromiseExact.

Lemma tryPromise_zero_times_witness :
  ResultFactory.tryPromise ResultFactory.double_product (fails_first 1) None
    (Some {| ResultFactory.times := 0;
             ResultFactory.delayMs := 10%float;
             ResultFactory.backoff := Some ResultFactory.exponential |}) 0 =
  ResultFactory.tryPromise ResultFactory.double_product (fails_first 1) None
    None 0.
Proof.
  apply (@tryPromise_zero_times JsValue nat float ResultFactory.double_product
           (fails_first 1) None
           {| ResultFactory.times := 0;
              ResultFactory.delayMs := 10%float;
              ResultFactory.backoff := Some ResultFactory.exponential |} 0).
  reflexivity.
Defined.


Lemma tryPromise_total_wait_witness :
  total_wait
    (snd (snd (ResultFactory.tryPromise ResultFactory.exact_product
       (fails_first 3) None
       (Some {| ResultFactory.times := 3;
                ResultFactory.delayMs := 10%Z;
                ResultFactory.backoff := Some ResultFactory.exponential |}) 0)))
    = (10 * (2 ^ 3 - 1))%Z /\
  invocations
    (snd (snd (ResultFactory.tryPromise ResultFactory.exact_product
       (fails_first 3) None
       (Some {| ResultFactory.times := 3;
                ResultFactory.delayMs := 10%Z;
                ResultFactory.backoff := Some ResultFactory.exponential |}) 0)))
    = 4.
Proof.
  apply (@tryPromise_total_wait JsValue nat (fails_first 3) None
           {| ResultFactory.times := 3;
              ResultFactory.delayMs := 10%Z;
              ResultFactory.backoff := Some ResultFactory.exponential |} 0 3).
  - simpl. lia.
  - intros i Hi. exists (JsError "Not yet").
    destruct i as [| [| [| i]]]; [reflexivity | reflexivity | reflexivity | lia].
  - left. exists (JsString "success"). reflexivity.
Defined.

Section OptionExtraction.
Context {T : Type}.

(** X22: on options the extraction methods agree: [unwrapOr] and
    [unwrapOrElse] return what [unwrap] returns when it returns and the
    default (the value of the thunk) where it throws; [expect] returns
    exactly when [unwrap] does, with the same value, and throws an [Error]
    with the given message exactly on [None]. *)
Theorem Option_extraction_methods_agree :
  (forall (o : Option.Option T) (d : T),
      Option.unwrapOr o d =
      match Option.unwrap o with Returns v => v | Throws _ => d end) /\
  (forall (o : Option.Option T) (d : T),
      Option.unwrapOr o d = Option.unwrapOrElse o (fun _ => d)) /\
  (forall (o : Option.Option T) (fn : unit -> T),
      Option.unwrapOrElse o fn = Option.match_ o (fun v => v) fn) /\
  (forall (o : Option.Option T) (msg : string) (v : T),
      Option.expect o msg = Returns v <-> Option.unwrap o = Returns v) /\
  (forall (o : Option.Option T) (msg : string) (fault : JsValue),
      Option.expect o msg = Throws fault <->
      o = Option.None /\ fault = JsError msg) /\
  (forall o : Option.Option T, Option.isNone o = negb (Option.isSome o)).
Proof.
  split; [| split; [| split; [| split; [| split]]]].
  - intros [v |] d; reflexivity.
  - intros [v |] d; reflexivity.
  - intros [v |] fn; reflexivity.
  - intros [v |] msg v'; simpl; split; intros H; congruence.
  - intros [v |] msg fault; simpl; split.
    + discriminate.
    + intros [H _]. discriminate.
    + intros [= <-]. auto.
    + intros [_ ->]. reflexivity.
  - intros [v |]; reflexivity.
Qed.

End OptionExtraction.
